(** * MicToggler: step distributions and timed playback

    A shallow embedding of [mictoggler.py] (Python 2): the class
    [StepDistribution], which samples, saves and loads a list of on/off
    steps, and the class [MicToggler], which plays such a list with a chain
    of [threading.Timer]s.

    Conventions of the embedding.
    - A Python exception is a value of [exn]; a call that may raise
      returns [result A = exn + A].  A method whose changes to [self]
      matter after a [raise] is a function from the object to a result
      and the object after the call: the mutations made before the
      [raise] are kept, as in Python.
    - A Python [float] is [float] below: an exact rational or one of
      [inf], [-inf], [nan].  Arithmetic on the finite values is exact;
      the rounding error of binary64 and the sign of zero are outside the
      model.  Division by zero raises [ZeroDivisionError], as in Python.
    - [random] is an interface ([PyRandom]) over an explicit generator
      state.
    - [exec] is an interface ([PyExec]) as well.  The assignment of a
      number literal, the form of the lines that [write_var] writes, is
      modelled; on any other text [exec] does what its interpreter
      does, and what is proved of [load_file] holds for every one.
    - A file is the text it holds. *)

From Stdlib Require Import ZArith QArith Qcanon Qround Qabs Lia Lqa.
From Stdlib Require Import Ascii String List Permutation DecimalString.
From stdpp Require Import base gmap strings list.

Local Open Scope Z_scope.

(** ** Python: exceptions and results *)

Inductive exn : Set :=
| AttributeError
| IndexError
| KeyError
| ValueError
| OverflowError
| ZeroDivisionError
| IOError
| ExecError.  (* what else a text run by [exec] raises: NameError, ... *)

Global Instance exn_eq_dec : EqDecision exn.
Proof. solve_decision. Defined.

Definition result (A : Type) : Type := exn + A.

Global Instance result_eq_dec {A : Type} `{EqDecision A} :
  EqDecision (result A).
Proof. unfold result. apply _. Defined.

Definition raise {A} (e : exn) : result A := inl e.
Definition ok {A} (a : A) : result A := inr a.

Definition rbind {A B} (r : result A) (k : A -> result B) : result B :=
  match r with
  | inl e => inl e
  | inr a => k a
  end.

Notation "x <-r r ;; k" := (rbind r (fun x => k))
  (at level 100, r at next level, right associativity, only parsing).

(** ** Python: floats *)

Inductive float : Set :=
| Fin (q : Qc)
| PInf
| NInf
| NaN.

Definition fl (q : Q) : float := Fin (Q2Qc q).
Definition of_Z (z : Z) : float := fl (inject_Z z).
Definition of_nat (n : nat) : float := of_Z (Z.of_nat n).

Global Instance float_eq_dec : EqDecision float.
Proof. solve_decision. Defined.

(** [a < b] on floats: every comparison with [nan] is false. *)
Definition flt (a b : float) : bool :=
  match a, b with
  | Fin x, Fin y => bool_decide (x < y)%Qc
  | Fin _, PInf => true
  | NInf, Fin _ => true
  | NInf, PInf => true
  | _, _ => false
  end.

(** [a <= b] on floats. *)
Definition fle (a b : float) : bool :=
  match a, b with
  | Fin x, Fin y => bool_decide (x <= y)%Qc
  | Fin _, PInf => true
  | NInf, Fin _ => true
  | NInf, PInf => true
  | PInf, PInf => true
  | NInf, NInf => true
  | _, _ => false
  end.

(** The builtins [max(a, b)] and [min(a, b)]: the first argument is kept
    unless the second is strictly greater (smaller). *)
Definition py_max (a b : float) : float := if flt a b then b else a.
Definition py_min (a b : float) : float := if flt b a then b else a.

(** Float arithmetic.  [inf - inf] and [0 * inf] are [nan]; [nan]
    propagates. *)
Definition fneg (a : float) : float :=
  match a with
  | Fin x => Fin (- x)%Qc
  | PInf => NInf
  | NInf => PInf
  | NaN => NaN
  end.

Definition fadd (a b : float) : float :=
  match a, b with
  | NaN, _ | _, NaN => NaN
  | Fin x, Fin y => Fin (x + y)%Qc
  | PInf, NInf | NInf, PInf => NaN
  | PInf, _ | _, PInf => PInf
  | NInf, _ | _, NInf => NInf
  end.

Definition fsub (a b : float) : float := fadd a (fneg b).

(** Sign of a float that is not [nan]: [Lt] negative, [Eq] zero, [Gt]
    positive. *)
Definition fsign (a : float) : comparison :=
  match a with
  | Fin x => (x ?= 0)%Qc
  | PInf => Gt
  | NInf => Lt
  | NaN => Eq
  end.

Definition finf (s : comparison) : float :=
  match s with
  | Gt => PInf
  | Lt => NInf
  | Eq => NaN
  end.

Definition fmul (a b : float) : float :=
  match a, b with
  | NaN, _ | _, NaN => NaN
  | Fin x, Fin y => Fin (x * y)%Qc
  | _, _ =>
      match fsign a, fsign b with
      | Eq, _ | _, Eq => NaN
      | Gt, Gt | Lt, Lt => PInf
      | _, _ => NInf
      end
  end.

(** [a / b] on floats: Python raises when the divisor is zero, whatever
    the dividend. *)
Definition fdiv (a b : float) : result float :=
  match b with
  | Fin y =>
      if bool_decide (y = 0)%Qc then raise ZeroDivisionError
      else ok match a with
              | Fin x => Fin (x / y)%Qc
              | NaN => NaN
              | _ => finf (match fsign a, fsign b with
                           | Gt, Gt | Lt, Lt => Gt
                           | _, _ => Lt
                           end)
              end
  | NaN => ok NaN
  | _ => ok match a with
            | Fin _ => Fin 0%Qc
            | _ => NaN
            end
  end.

(** Python 2 [round(x)]: to the nearest integer, ties away from zero; the
    result is a float.  [inf] and [nan] round to themselves. *)
Definition round_half_away (q : Q) : Z :=
  if Qle_bool 0 q then Qfloor (q + (1 # 2))%Q else Qceiling (q - (1 # 2))%Q.

Definition py_round (a : float) : float :=
  match a with
  | Fin x => of_Z (round_half_away (this x))
  | _ => a
  end.

(** [int(x)] of a float: truncation towards zero. *)
Definition truncate (q : Q) : Z :=
  if Qle_bool 0 q then Qfloor q else Qceiling q.

Definition py_int (a : float) : result Z :=
  match a with
  | Fin x => ok (truncate (this x))
  | NaN => raise ValueError
  | _ => raise OverflowError
  end.

(** [sum(l)] of a list of floats: left to right, from the integer 0. *)
Definition py_sum (l : list float) : float := fold_left fadd l (Fin 0%Qc).

(** A value of the [params] dictionary: an [int] or a [float]. *)
Inductive pyval : Set :=
| VInt (z : Z)
| VFloat (x : float).

Global Instance pyval_eq_dec : EqDecision pyval.
Proof. solve_decision. Defined.

(** Implicit conversion of a number to float in mixed arithmetic. *)
Definition as_float (v : pyval) : float :=
  match v with
  | VInt z => of_Z z
  | VFloat x => x
  end.

(** [v + 0.0]. *)
Definition add_float_zero (v : pyval) : pyval :=
  VFloat (fadd (as_float v) (Fin 0%Qc)).

(** ** Python: strings *)

Definition LF : ascii := "010"%char.
Definition CR : ascii := "013"%char.
Definition CRLF : string := String CR (String LF EmptyString).

(** [s.strip()]: whitespace removed at both ends. *)
Fixpoint lstrip (s : string) : string :=
  match s with
  | String c s' => if Ascii.is_space c then lstrip s' else s
  | EmptyString => EmptyString
  end.

Fixpoint rstrip (s : string) : string :=
  match s with
  | String c s' =>
      match rstrip s' with
      | EmptyString =>
          if Ascii.is_space c then EmptyString else String c EmptyString
      | r => String c r
      end
  | EmptyString => EmptyString
  end.

Definition strip (s : string) : string := lstrip (rstrip s).

(** [c in s] for a one-character [c]. *)
Fixpoint contains (c : ascii) (s : string) : bool :=
  match s with
  | String c' s' => Ascii.eqb c' c || contains c s'
  | EmptyString => false
  end.

(** [s.split(sep)] for a one-character separator: never empty. *)
Fixpoint split (sep : ascii) (s : string) : list string :=
  match s with
  | EmptyString => [EmptyString]
  | String c s' =>
      if Ascii.eqb c sep then EmptyString :: split sep s'
      else match split sep s' with
           | x :: xs => String c x :: xs
           | [] => [String c EmptyString]
           end
  end.

(** The lines of a file as [for line in f] yields them: each line keeps its
    newline, and there is no empty line after the last newline. *)
Fixpoint readlines (s : string) : list string :=
  match s with
  | EmptyString => []
  | String c s' =>
      if Ascii.eqb c LF then String c EmptyString :: readlines s'
      else match readlines s' with
           | l :: ls => String c l :: ls
           | [] => [String c EmptyString]
           end
  end.

Fixpoint replicate_char (n : nat) (c : ascii) : string :=
  match n with
  | O => EmptyString
  | S n => String c (replicate_char n c)
  end.

Definition take (n : nat) (s : string) : string := substring 0 n s.
Definition drop (n : nat) (s : string) : string :=
  substring n (String.length s - n) s.

Definition is_digit (c : ascii) : bool :=
  match Ascii.is_nat c with Some _ => true | None => false end.

Definition lower (c : ascii) : ascii :=
  let n := nat_of_ascii c in
  if (65 <=? n)%nat && (n <=? 90)%nat then ascii_of_nat (n + 32) else c.

Fixpoint lowercase (s : string) : string :=
  match s with
  | String c s' => String (lower c) (lowercase s')
  | EmptyString => EmptyString
  end.

(** *** Numbers to text: [str] *)

(** Decimal digits of a natural number. *)
Definition digits (z : Z) : string := NilZero.string_of_int (Z.to_int z).

Definition str_int (z : Z) : string := digits z.


Definition round_half_even (q : Q) : Z :=
  let f := Qfloor q in
  match (q - inject_Z f ?= 1 # 2)%Q with
  | Lt => f
  | Gt => f + 1
  | Eq => if Z.even f then f else f + 1
  end.

Fixpoint strip_trailing_zeros (s : string) : string :=
  match s with
  | String c s' =>
      match strip_trailing_zeros s' with
      | EmptyString =>
          if Ascii.eqb c "0" then EmptyString else String c EmptyString
      | r => String c r
      end
  | EmptyString => EmptyString
  end.

(** The decimal exponent [X] of a positive rational: [10^X <= a < 10^(X+1)]. *)
Definition decimal_exponent (a : Q) : Z :=
  let X0 := Z.of_nat (String.length (digits (Qnum a)))
            - Z.of_nat (String.length (digits (Zpos (Qden a)))) in
  if Qle_bool (10 ^ X0) a then X0 else X0 - 1.

(** The exponent part of the scientific form: a sign and at least two
    digits. *)
Definition str_exponent (X : Z) : string :=
  (if X <? 0 then "e-" else "e+")
  +:+ (if Z.abs X <? 10 then "0" else EmptyString) +:+ digits (Z.abs X).

(** ['%.12g'] of a positive rational, then [.0] when the result has the
    form of an integer: the text of a float, 12 significant digits. *)
Definition format_g12 (a : Q) : string :=
  let X := decimal_exponent a in
  let D0 := round_half_even (a / 10 ^ (X - 11)) in
  let '(X, D) := if D0 =? 10 ^ 12 then (X + 1, 10 ^ 11) else (X, D0) in
  let ds := strip_trailing_zeros (digits D) in
  if (X <? -4) || (12 <=? X) then
    take 1 ds
    +:+ (if (1 <? String.length ds)%nat then "." +:+ drop 1 ds
         else EmptyString)
    +:+ str_exponent X
  else if 0 <=? X then
    let k := Z.to_nat (X + 1) in
    if (String.length ds <=? k)%nat
    then ds +:+ replicate_char (k - String.length ds) "0" +:+ ".0"
    else take k ds +:+ "." +:+ drop k ds
  else "0." +:+ replicate_char (Z.to_nat (- X - 1)) "0" +:+ ds.

(** [str(x)] of a float in Python 2. *)
Definition str_float (a : float) : string :=
  match a with
  | NaN => "nan"
  | PInf => "inf"
  | NInf => "-inf"
  | Fin x =>
      let q := this x in
      if Qeq_bool q 0 then "0.0"
      else (if Qle_bool 0 q then EmptyString else "-") +:+ format_g12 (Qabs q)
  end.

Definition str_val (v : pyval) : string :=
  match v with
  | VInt z => str_int z
  | VFloat x => str_float x
  end.

(** *** Text to numbers: [float] and number literals *)

Fixpoint span_digits (s : string) : string * string :=
  match s with
  | String c s' =>
      if is_digit c
      then let '(d, r) := span_digits s' in (String c d, r)
      else (EmptyString, s)
  | EmptyString => (EmptyString, EmptyString)
  end.

Definition digits_val (s : string) : Z :=
  match NilEmpty.uint_of_string s with
  | Some u => Z.of_uint u
  | None => 0
  end.

(** An optional sign. *)
Definition split_sign (s : string) : bool * string :=
  match s with
  | String "-" s' => (true, s')
  | String "+" s' => (false, s')
  | _ => (false, s)
  end.

(** An unsigned decimal number: integer digits, an optional point and
    fraction digits, an optional exponent. *)
Record decimal : Set := mkDecimal {
  int_digits : string;
  has_point : bool;
  frac_digits : string;
  exponent : option Z
}.

Definition parse_exponent (s : string) : option (option Z) :=
  match s with
  | EmptyString => Some None
  | String c s' =>
      if Ascii.eqb (lower c) "e" then
        let '(neg, r) := split_sign s' in
        match span_digits r with
        | (String d ds, EmptyString) =>
            let e := digits_val (String d ds) in
            Some (Some (if neg then - e else e))
        | _ => None
        end
      else None
  end.

Definition parse_decimal (s : string) : option decimal :=
  let '(ip, r1) := span_digits s in
  let '(point, (fp, r2)) :=
    match r1 with
    | String "." r => (true, span_digits r)
    | _ => (false, (EmptyString, r1))
    end in
  match ip, fp with
  | EmptyString, EmptyString => None
  | _, _ =>
      match parse_exponent r2 with
      | Some e => Some (mkDecimal ip point fp e)
      | None => None
      end
  end.

Definition decimal_value (neg : bool) (d : decimal) : Qc :=
  let m := digits_val (int_digits d +:+ frac_digits d) in
  let e := default 0 (exponent d) - Z.of_nat (String.length (frac_digits d)) in
  let q := (inject_Z m * 10 ^ e)%Q in
  Q2Qc (if neg then - q else q)%Q.

(** [float(s)]: surrounding whitespace is ignored; [inf], [infinity] and
    [nan] are accepted in any case. *)
Definition py_float (s : string) : result float :=
  let '(neg, body) := split_sign (strip s) in
  let word := lowercase body in
  if (word =? "inf")%string || (word =? "infinity")%string
  then ok (if neg then NInf else PInf)
  else if (word =? "nan")%string then ok NaN
  else match parse_decimal body with
       | Some d => ok (Fin (decimal_value neg d))
       | None => raise ValueError
       end.

(** A Python number literal with an optional sign, as an expression: an
    integer without point and exponent, a float otherwise.  [None] for any
    other text (also integers with a leading zero, which are octal). *)
Definition py_literal (s : string) : option pyval :=
  let '(neg, body) := split_sign (strip s) in
  match parse_decimal body with
  | Some d =>
      if has_point d || bool_decide (exponent d <> None)
      then Some (VFloat (Fin (decimal_value neg d)))
      else match int_digits d with
           | String "0" (String _ _) => None
           | ds => Some (VInt (if neg then - digits_val ds else digits_val ds))
           end
  | None => None
  end.

(** A dictionary key that reads back as itself between double quotes:
    printable characters other than the quote and the backslash. *)
Definition plain_char (c : ascii) : bool :=
  let n := nat_of_ascii c in
  (32 <=? n)%nat && (n <=? 126)%nat && negb (n =? 34)%nat && negb (n =? 92)%nat.

Fixpoint plain_key (s : string) : bool :=
  match s with
  | String c s' => plain_char c && plain_key s'
  | EmptyString => true
  end.

(** The text that [read_var] gives to [exec]:
    ['self.params["' + k + '"] = ' + v]. *)
Definition quote : ascii := "034"%char.

Definition assignment (k v : string) : string :=
  "self.params[" +:+ String quote k +:+ String quote ("] = " +:+ v).

(** [exec(text)] in [read_var]: the text is run as Python code, with the
    object in scope.  The interface gives what [load_file] sees of it:
    the exception it raises, or the dictionary [params] as it leaves
    it.  A text that stores something else than a number, or that reaches
    beyond the dictionary, is outside the model. *)
Class PyExec : Type := {
  exec : string -> gmap string pyval -> result (gmap string pyval)
}.

(** [exec('self.params["' + k + '"] = ' + v)].  For a plain key and a
    number literal, the form of the lines that [write_var] writes, it is
    the assignment [params[k] = v].  Any other text is left to the
    interpreter: Python raises on most ([inf], [nan], an empty value, a
    word) and runs the remaining ones as code ([1+1], [1/0], [010], a
    key that closes the quote, a call). *)
Definition exec_assign `{PyExec} (k v : string) (params : gmap string pyval)
  : result (gmap string pyval) :=
  if plain_key k then
    match py_literal v with
    | Some x => ok (<[k := x]> params)
    | None => exec (assignment k v) params
    end
  else exec (assignment k v) params.

(** ** Python: the [random] module *)

(** [random.gauss(mu, sigma)] and [random.shuffle(l)] over an explicit
    generator state.  All that is known of [shuffle] is that it permutes
    its list. *)
Class PyRandom (G : Type) : Type := {
  gauss : float -> float -> G -> float * G;
  shuffle : forall {A : Type}, list A -> G -> list A * G;
  shuffle_Permutation :
    forall (A : Type) (l : list A) (g : G), Permutation l (shuffle l g).1
}.

(** ** class StepDistribution *)

Module StepDistribution.

Definition listStartMarker : string := "STEPLIST" +:+ CRLF.

(** The object: the [params] dictionary and the list of steps.
    [stepList] is empty until a method assigns it.  The class counter
    [nInstances] only names the default output file and is left out. *)
Record self : Type := mkSelf {
  params : gmap string pyval;
  stepList : list (bool * float)
}.

Definition blank : self := {| params := ∅; stepList := [] |}.

Definition set_params (p : gmap string pyval) (d : self) : self :=
  {| params := p; stepList := stepList d |}.

Definition set_stepList (l : list (bool * float)) (d : self) : self :=
  {| params := params d; stepList := l |}.

Definition generationFields : list string :=
  ["nSteps"; "fracOn"; "avgDurOn"; "stdDurOn"; "minDurOn";
   "maxDurOn"; "avgDurOff"; "stdDurOff"; "minDurOff"; "maxDurOff"].



(** [params[k]] *)
Definition getitem (p : gmap string pyval) (k : string) : result pyval :=
  match p !! k with
  | Some v => ok v
  | None => raise KeyError
  end.

Definition getfloat (p : gmap string pyval) (k : string) : result float :=
  v <-r getitem p k;; ok (as_float v).

(** *** Loading *)

Section Loading.
Context `{PyExec}.

(** [read_var]: called on lines that hold an [=], so that both parts
    exist. *)
Definition read_var (line : string) (p : gmap string pyval)
  : result (gmap string pyval) :=
  match split "=" (strip line) with
  | k :: v :: _ => exec_assign k v p
  | _ => raise IndexError
  end.

(** The local state of the loop of [load_file]. *)
Record loop : Type := mkLoop {
  stillInHeader : bool;
  loop_params : gmap string pyval;
  loop_stepList : list (bool * float)
}.

(** A line of the body: [OnOff,Duration]. *)
Definition parse_step (line : string) : result (bool * float) :=
  let vals := split "," (strip line) in
  match vals !! 1%nat with
  | None => raise IndexError
  | Some v1 =>
      x <-r py_float v1;;
      ok ((default EmptyString (vals !! 0%nat) =? "True")%string, x)
  end.

(** The body of the loop, for one line. *)
Definition load_line (st : loop) (line : string) : result loop :=
  if stillInHeader st then
    p <-r (if contains "=" line then read_var line (loop_params st)
           else ok (loop_params st));;
    ok {| stillInHeader :=
            negb (strip line =? strip listStartMarker)%string;
          loop_params := p;
          loop_stepList := loop_stepList st |}
  else
    tup <-r parse_step line;;
    ok {| stillInHeader := false;
          loop_params := loop_params st;
          loop_stepList := loop_stepList st ++ [tup] |}.




End Loading.

(** *** Saving *)






(** *** Statistics *)

(** [__distribution_details] *)
Definition distribution_details (stepList : list (bool * float))
  : result (float * float * float) :=
  let nOn := fold_left (fun n (step : bool * float) =>
                          if step.1 then n + 1 else n) stepList 0 in
  fracStepsOn <-r fdiv (fadd (of_Z nOn) (Fin 0%Qc))
                       (of_nat (length stepList));;
  let timeTotal := py_sum (map snd stepList) in
  fracTimeOn <-r fdiv (py_sum (map (fun step : bool * float =>
                                      if step.1 then step.2 else Fin 0%Qc)
                                   stepList))
                      timeTotal;;
  ok (fracStepsOn, fracTimeOn, timeTotal).

(** *** Generation *)

Section Generation.
Context {G : Type} `{PyRandom G}.

Fixpoint gauss_list (n : nat) (avgDur stdDur : float) (g : G)
  : list float * G :=
  match n with
  | O => ([], g)
  | S n =>
      let '(x, g) := gauss avgDur stdDur g in
      let '(xs, g) := gauss_list n avgDur stdDur g in
      (x :: xs, g)
  end.

Definition bounded_gaussian_list
    (nElem : Z) (avgDur stdDur minDur maxDur : float) (g : G)
  : list float * G :=
  let '(steps, g) := gauss_list (Z.to_nat nElem) avgDur stdDur g in
  (map (fun x => py_min (py_max minDur x) maxDur) steps, g).

(** The first half of [__set_seq]: the shuffled list of steps. *)
Definition draw_steps (p : gmap string pyval) (g : G)
  : result (list (bool * float)) * G :=
  match
    fracOn <-r getfloat p "fracOn";;
    nSteps <-r getfloat p "nSteps";;
    let nOn := py_round (fmul fracOn nSteps) in
    let nOff := fsub nSteps nOn in
    iOn <-r py_int nOn;;
    avgOn <-r getfloat p "avgDurOn";;
    stdOn <-r getfloat p "stdDurOn";;
    minOn <-r getfloat p "minDurOn";;
    maxOn <-r getfloat p "maxDurOn";;
    ok (nOff, iOn, avgOn, stdOn, minOn, maxOn)
  with
  | inl e => (inl e, g)
  | inr (nOff, iOn, avgOn, stdOn, minOn, maxOn) =>
      let '(onList, g) :=
        bounded_gaussian_list iOn avgOn stdOn minOn maxOn g in
      let onList := map (fun val => (true, val)) onList in
      match
        iOff <-r py_int nOff;;
        avgOff <-r getfloat p "avgDurOff";;
        stdOff <-r getfloat p "stdDurOff";;
        minOff <-r getfloat p "minDurOff";;
        maxOff <-r getfloat p "maxDurOff";;
        ok (iOff, avgOff, stdOff, minOff, maxOff)
      with
      | inl e => (inl e, g)
      | inr (iOff, avgOff, stdOff, minOff, maxOff) =>
          let '(offList, g) :=
            bounded_gaussian_list iOff avgOff stdOff minOff maxOff g in
          let offList := map (fun val => (false, val)) offList in
          let '(steps, g) := shuffle (onList ++ offList) g in
          (ok steps, g)
      end
  end.

(** [__set_seq] *)
Definition set_seq (d : self) (g : G) : result unit * self * G :=
  match draw_steps (params d) g with
  | (inl e, g) => (inl e, d, g)
  | (inr steps, g) =>
      let d := set_stepList steps d in
      match distribution_details (stepList d) with
      | inl e => (inl e, d, g)
      | inr (fracStepsOn, fracTimeOn, timeTotal) =>
          (ok tt,
           set_params (<["timeTotal" := VFloat timeTotal]>
                       (<["fracTimeOn" := VFloat fracTimeOn]>
                        (<["fracStepsOn" := VFloat fracStepsOn]>
                         (params d)))) d,
           g)
      end
  end.

(** [for eF in expectedFields: self.params[eF] += 0.0] *)
Fixpoint to_floats (fields : list string) (p : gmap string pyval)
  : result (gmap string pyval) :=
  match fields with
  | [] => ok p
  | eF :: fields =>
      v <-r getitem p eF;;
      to_floats fields (<[eF := add_float_zero v]> p)
  end.

(** [self.params[k] = max(self.params[k], 0.0)] *)
Definition nonnegative (k : string) (p : gmap string pyval)
  : result (gmap string pyval) :=
  x <-r getfloat p k;;
  ok (<[k := VFloat (py_max x (Fin 0%Qc))]> p).

(** The first lines of [__init__]: every field converted to float,
    the four bounds made nonnegative. *)
Definition coerce (paramsOrFile : gmap string pyval)
  : result (gmap string pyval) :=
  p <-r to_floats generationFields paramsOrFile;;
  p <-r nonnegative "minDurOn" p;;
  p <-r nonnegative "maxDurOn" p;;
  p <-r nonnegative "minDurOff" p;;
  nonnegative "maxDurOff" p.

(** [__init__] on a dictionary of parameters.  An object whose
    [__init__] raised is seen by nobody; the model keeps the fields as
    [__set_seq] left them, and the dictionary as it was passed when the
    conversion to floats raised. *)
Definition init_params (paramsOrFile : gmap string pyval) (g : G)
  : result unit * self * G :=
  match coerce paramsOrFile with
  | inl e => (inl e, set_params paramsOrFile blank, g)
  | inr p => set_seq (set_params p blank) g
  end.


End Generation.

End StepDistribution.

(** ** class MicToggler *)

Module MicToggler.

(** A [threading.Timer]: the delay it was created with, and whether it is
    pending (started, neither fired nor cancelled). *)
Record Timer : Set := mkTimer { interval : float; pending : bool }.

Definition cancel (tm : Timer) : Timer :=
  {| interval := interval tm; pending := false |}.

(** The object.  [iStep] and [t] are assigned by [run] only: [None] is an
    attribute that does not exist yet.  [calls] is the trace of volume
    changes made so far, oldest first: [true] for [makeMicLoud], [false]
    for [makeMicSilent].  The microphone name and level only
    parameterise the external command and are left out. *)
Record self : Type := mkSelf {
  sequence : list (bool * float);
  currentlyToggling : bool;
  iStep : option nat;
  t : option Timer;
  calls : list bool
}.

Definition method (A : Type) : Type := self -> result A * self.

Definition init (sequence : list (bool * float)) : self :=
  {| sequence := sequence; currentlyToggling := false;
     iStep := None; t := None; calls := [] |}.

Definition makeMicLoud (m : self) : self :=
  {| sequence := sequence m; currentlyToggling := currentlyToggling m;
     iStep := iStep m; t := t m; calls := calls m ++ [true] |}.

Definition makeMicSilent (m : self) : self :=
  {| sequence := sequence m; currentlyToggling := currentlyToggling m;
     iStep := iStep m; t := t m; calls := calls m ++ [false] |}.

Definition setMicVol (volBool : bool) (m : self) : self :=
  if volBool then makeMicLoud m else makeMicSilent m.

Definition set_t (tm : Timer) (m : self) : self :=
  {| sequence := sequence m; currentlyToggling := currentlyToggling m;
     iStep := iStep m; t := Some tm; calls := calls m |}.

Definition set_currentlyToggling (b : bool) (m : self) : self :=
  {| sequence := sequence m; currentlyToggling := b;
     iStep := iStep m; t := t m; calls := calls m |}.

Definition set_iStep (i : nat) (m : self) : self :=
  {| sequence := sequence m; currentlyToggling := currentlyToggling m;
     iStep := Some i; t := t m; calls := calls m |}.

(** [stop]: [self.t.cancel()] raises [AttributeError] when [self.t] was
    never assigned. *)
Definition stop : method unit := fun m =>
  match t m with
  | None => (raise AttributeError, m)
  | Some tm =>
      (ok tt, makeMicLoud (set_currentlyToggling false (set_t (cancel tm) m)))
  end.

(** [__doStep], the function every timer calls when it fires. *)
Definition doStep : method unit := fun m =>
  match t m, iStep m with
  | Some tm, Some i =>
      let m := set_t (cancel tm) m in
      match sequence m !! i with
      | None => (raise IndexError, m)
      | Some step =>
          let m := setMicVol step.1 m in
          if bool_decide (i < length (sequence m))%nat && currentlyToggling m
          then
            let m := set_iStep (i + 1) m in
            match sequence m !! (i + 1)%nat with
            | None => (raise IndexError, m)
            | Some next =>
                (ok tt, set_t {| interval := next.2; pending := true |} m)
            end
          else stop m
      end
  | _, _ => (raise AttributeError, m)
  end.

Definition run : method unit := fun m =>
  let m := set_currentlyToggling true m in
  let m := set_iStep 0 m in
  (ok tt, set_t {| interval := fl 0.01; pending := true |} m).

(** The pending timer fires: its thread calls [__doStep].  [None] when no
    timer is pending. *)
Definition fire (m : self) : option (result unit * self) :=
  match t m with
  | Some tm => if pending tm then Some (doStep m) else None
  | None => None
  end.

(** Playback left alone: the timers fire one after the other until none
    is pending or one of them raises (the exception ends its thread).
    [fuel] bounds the number of timers that fire. *)
Fixpoint play (fuel : nat) (m : self) : result unit * self :=
  match fuel with
  | O => (ok tt, m)
  | S fuel =>
      match fire m with
      | None => (ok tt, m)
      | Some (inl e, m') => (inl e, m')
      | Some (inr _, m') => play fuel m'
      end
  end.

(** [run()] and then playback to the end. *)
Definition run_to_completion (fuel : nat) (sequence : list (bool * float))
  : result unit * self :=
  play fuel (run (init sequence)).2.

(** Idle: not toggling. *)
Definition idle (m : self) : Prop := currentlyToggling m = false.

End MicToggler.

(** * Vocabulary of the properties *)

(** ** Texts *)

(** Every character of [s] satisfies [P]. *)
Fixpoint all_chars (P : ascii -> bool) (s : string) : bool :=
  match s with
  | String c s' => P c && all_chars P s'
  | EmptyString => true
  end.

Definition not_char (c : ascii) : ascii -> bool :=
  fun x => negb (Ascii.eqb x c).

Definition not_space : ascii -> bool := fun x => negb (Ascii.is_space x).




(** ** Steps *)

(** The steps of a list that are on, and those that are off. *)
Definition on_steps (l : list (bool * float)) : list (bool * float) :=
  List.filter (fun step => step.1) l.



(** The value of a generation field after the first lines of [__init__]:
    a float, and not below zero when the field is one of the four bounds. *)
Definition is_bound (k : string) : bool :=
  existsb (String.eqb k) ["minDurOn"; "maxDurOn"; "minDurOff"; "maxDurOff"].

Definition coerced (k : string) (v : pyval) : pyval :=
  VFloat (if is_bound k then py_max (as_float v) (Fin 0%Qc) else as_float v).

(** ** Saved files *)

(** A number is stable when its text reads back as the same number: a
    value of the dictionary through [exec], a duration through [float]. *)
Definition literal_stable (v : pyval) : Prop :=
  py_literal (str_val v) = Some v.

Definition float_stable (x : float) : Prop :=
  py_float (str_float x) = ok x.

Global Instance literal_stable_dec v : Decision (literal_stable v).
Proof. unfold literal_stable. apply _. Defined.

Global Instance float_stable_dec x : Decision (float_stable x).
Proof. unfold float_stable. apply _. Defined.


















(** ** Playback *)

(** The object while the chain is running at step [i]: a timer is pending
    and the effects of the steps before [i] have been made. *)
Definition running (seq : list (bool * float)) (i : nat)
    (m : MicToggler.self) : Prop :=
  MicToggler.sequence m = seq /\
  MicToggler.currentlyToggling m = true /\
  MicToggler.iStep m = Some i /\
  (exists d, MicToggler.t m
             = Some {| MicToggler.interval := d; MicToggler.pending := true |}) /\
  MicToggler.calls m = map fst (firstn i seq).

(** The object after the chain broke at the end of the list. *)
Definition broken (seq : list (bool * float)) (m : MicToggler.self) : Prop :=
  MicToggler.sequence m = seq /\
  MicToggler.currentlyToggling m = true /\
  MicToggler.iStep m = Some (length seq) /\
  (exists d, MicToggler.t m
             = Some {| MicToggler.interval := d; MicToggler.pending := false |}) /\
  MicToggler.calls m = map fst seq.

(** [stop] on an idle object, as the specification wants it: no exception
    and no effect. *)
Definition stop_silent_when_idle (m : MicToggler.self) : Prop :=
  MicToggler.idle m ->
  exists m', MicToggler.stop m = (ok tt, m') /\
             MicToggler.calls m' = MicToggler.calls m.

(** ** Example data *)

(** An interpreter for the examples, which knows no statement.  The
    files of the examples hold number literals only and leave it
    unused. *)
Global Instance no_exec : PyExec := {| exec _ _ := raise ExecError |}.

(** The playback scenario: on for 0.1 s, off for 0.2 s, on for 0.1 s. *)
Definition scenario : list (bool * float) :=
  [(true, fl 0.1); (false, fl 0.2); (true, fl 0.1)].

(** A generator for examples: a tape of samples that [gauss] reads one by
    one (its mean once the tape is empty), and a [shuffle] that reverses
    its list. *)
Global Program Instance tape_random : PyRandom (list float) := {|
  gauss mu sigma tape :=
    match tape with
    | x :: tape => (x, tape)
    | [] => (mu, [])
    end;
  shuffle A l tape := (rev l, tape)
|}.
Next Obligation. intros A l tape. simpl. apply Permutation_rev. Qed.











(** * Floats: order and sums *)

Section FloatOrder.


Ltac order_cases :=
  repeat match goal with
         | a : float |- _ => destruct a
         end;
  simpl in *; try discriminate; try reflexivity;
  repeat match goal with
         | H : bool_decide _ = true |- _ => apply bool_decide_eq_true_1 in H
         | H : bool_decide _ = false |- _ => apply bool_decide_eq_false_1 in H
         | |- bool_decide _ = true => apply bool_decide_eq_true_2
         | |- bool_decide _ = false => apply bool_decide_eq_false_2
         end.

Lemma flt_fle a b : flt a b = true -> fle a b = true.
Proof. intros H. order_cases. now apply Qclt_le_weak. Qed.

Lemma fle_not_flt a b : fle a b = true -> flt b a = false.
Proof. intros H. order_cases. now apply Qcle_not_lt. Qed.

Lemma flt_asym a b : flt a b = true -> flt b a = false.
Proof. intros H. apply fle_not_flt, flt_fle, H. Qed.

Lemma fle_refl_l a b : fle a b = true -> fle a a = true.
Proof. intros H. order_cases; apply Qcle_refl. Qed.

Lemma fle_refl_r a b : fle a b = true -> fle b b = true.
Proof. intros H. order_cases; apply Qcle_refl. Qed.

(** Two floats that are not [nan] are comparable. *)
Lemma not_flt_fle a b :
  fle a a = true -> fle b b = true -> flt a b = false -> fle b a = true.
Proof. intros Ha Hb H. order_cases. now apply Qcnot_lt_le. Qed.

Lemma fle_flt_trans a b c :
  fle a b = true -> flt b c = true -> flt a c = true.
Proof. intros H1 H2. order_cases. eapply Qcle_lt_trans; eauto. Qed.

Lemma flt_trans a b c :
  flt a b = true -> flt b c = true -> flt a c = true.
Proof. intros H1 H2. order_cases. eapply Qclt_trans; eauto. Qed.

Lemma fle_antisym_flt a b :
  fle a b = true -> flt a b = false -> a = b.
Proof.
  intros H1 H2. order_cases. f_equal.
  apply Qcle_antisym; [assumption | now apply Qcnot_lt_le].
Qed.

Lemma fadd_0_r a : fadd a (Fin 0%Qc) = a.
Proof. destruct a; simpl; try reflexivity. now rewrite Qcplus_0_r. Qed.

Lemma fadd_0_l a : fadd (Fin 0%Qc) a = a.
Proof. destruct a; simpl; try reflexivity. now rewrite Qcplus_0_l. Qed.

End FloatOrder.

(** * Playback: the timer chain of [MicToggler] *)

Section Playback.
Import MicToggler.

Lemma run_running seq m :
  sequence m = seq -> calls m = [] -> running seq 0 (run m).2.
Proof.
  intros Hs Hc. unfold running, run; simpl.
  repeat split; auto. eexists; reflexivity.
Qed.

Lemma firstn_succ_snoc {A} (l : list A) i x :
  l !! i = Some x -> firstn (S i) l = firstn i l ++ [x].
Proof.
  revert i. induction l as [|a l IH]; intros [|i] Hx; simpl in *;
    try discriminate.
  - injection Hx as ->. reflexivity.
  - f_equal. apply IH. exact Hx.
Qed.

(** A timer that fires before the last step: the effect of step [i] is
    made, and the next timer waits for the duration of step [i + 1]. *)
Lemma fire_advance seq i m step next :
  running seq i m -> seq !! i = Some step -> seq !! (i + 1)%nat = Some next ->
  exists m', fire m = Some (ok tt, m') /\ running seq (i + 1) m' /\
             t m' = Some {| interval := next.2; pending := true |} /\
             calls m' = calls m ++ [step.1].
Proof.
  intros (Hs & Ht & Hi & [d Hd] & Hc) Hstep Hnext.
  assert (Hlt : (i < length seq)%nat) by (eapply lookup_lt_Some; eauto).
  destruct m as [sq tg ist tm cs]; simpl in *; subst.
  destruct step as [b x].
  unfold fire, doStep; simpl. rewrite Hstep.
  destruct b; simpl; rewrite bool_decide_eq_true_2 by exact Hlt; simpl;
    rewrite Hnext; (eexists; split; [reflexivity|]);
    unfold running; simpl;
    rewrite Nat.add_1_r, (firstn_succ_snoc _ _ _ Hstep), map_app;
    repeat split; eauto.
Qed.

(** The timer of the last step: its effect is made, then
    [self.sequence[self.iStep]] is out of range and [stop] is not
    reached. *)
Lemma fire_last seq i m step :
  running seq i m -> seq !! i = Some step -> seq !! (i + 1)%nat = None ->
  exists m', fire m = Some (raise IndexError, m') /\ broken seq m'.
Proof.
  intros (Hs & Ht & Hi & [d Hd] & Hc) Hstep Hnext.
  assert (Hlt : (i < length seq)%nat) by (eapply lookup_lt_Some; eauto).
  assert (Hlen : length seq = S i).
  { apply lookup_ge_None in Hnext. lia. }
  destruct m as [sq tg ist tm cs]; simpl in *; subst.
  destruct step as [b x].
  unfold fire, doStep; simpl. rewrite Hstep.
  assert (Hall : map fst seq = map fst (firstn i seq) ++ [b]).
  { rewrite <- (firstn_all seq) at 1.
    rewrite Hlen, (firstn_succ_snoc _ _ _ Hstep), map_app. reflexivity. }
  destruct b; simpl; rewrite bool_decide_eq_true_2 by exact Hlt; simpl;
    rewrite Hnext; (eexists; split; [reflexivity|]);
    unfold broken; simpl; rewrite Hall, Hlen, Nat.add_1_r;
    repeat split; eauto.
Qed.

(** Playback from step [i] to the end of the list. *)
Lemma play_breaks seq : forall n i m fuel,
  running seq i m -> (i + n = length seq)%nat -> (0 < n)%nat ->
  (n <= fuel)%nat ->
  exists m', play fuel m = (raise IndexError, m') /\ broken seq m'.
Proof.
  induction n as [|n IH]; intros i m fuel Hrun Hlen Hn Hfuel; [lia|].
  destruct fuel as [|fuel]; [lia|].
  destruct (seq !! i) as [step|] eqn:Hstep.
  2:{ apply lookup_ge_None in Hstep. lia. }
  destruct (seq !! (i + 1)%nat) as [next|] eqn:Hnext.
  - destruct (fire_advance _ _ _ _ _ Hrun Hstep Hnext) as (m' & Hf & Hr & _).
    simpl. rewrite Hf.
    apply lookup_lt_Some in Hnext.
    apply (IH (i + 1)%nat m' fuel Hr); lia.
  - destruct (fire_last _ _ _ _ Hrun Hstep Hnext) as (m' & Hf & Hb).
    simpl. rewrite Hf. eauto.
Qed.

(** [run()] on a fresh object, then playback left alone: for every
    non-empty list the last timer raises, with one effect per step made
    and no final [makeMicLoud]. *)
Lemma run_to_completion_breaks seq fuel :
  seq <> [] -> (length seq <= fuel)%nat ->
  exists m', run_to_completion fuel seq = (raise IndexError, m') /\
             broken seq m'.
Proof.
  intros Hne Hfuel. unfold run_to_completion.
  apply (play_breaks seq (length seq) 0%nat); auto.
  - apply run_running; reflexivity.
  - destruct seq; [congruence | simpl; lia].
Qed.

(** [stop()] while the chain is running: the pending timer is cancelled
    and the one final [makeMicLoud] is made. *)
Lemma stop_while_running seq i m :
  running seq i m ->
  exists m', stop m = (ok tt, m') /\ idle m' /\ fire m' = None /\
             calls m' = calls m ++ [true].
Proof.
  intros (Hs & Ht & Hi & [d Hd] & Hc).
  unfold stop. rewrite Hd. eexists; split; [reflexivity|].
  unfold idle, fire; simpl. auto.
Qed.

(** C1 (defect of the code).  The scenario
    [(true,0.1),(false,0.2),(true,0.1)] played to the end records
    [true, false, true] and not [true, false, true, true]: the timer of
    the last step raises [IndexError] before [stop] is reached, no timer
    is pending afterwards and the object still claims to be toggling. *)
Theorem C1_completion_makes_no_final_call :
  let r := run_to_completion 4 scenario in
  r.1 = raise IndexError /\
  calls r.2 = [true; false; true] /\
  calls r.2 <> [true; false; true; true] /\
  currentlyToggling r.2 = true /\
  fire r.2 = None.
Proof. vm_compute. repeat split; congruence. Qed.

(** C6 (defect of the code).  In the scenario, [run] arms a timer of
    0.01 s at index 0; when it fires the effect of step 0 is made, but
    the next timer waits for the duration of step 1 (0.2 s), not for the
    duration of step 0 (0.1 s). *)
Theorem C6_wakeup_waits_for_next_duration :
  let m0 := (run (init scenario)).2 in
  iStep m0 = Some 0%nat /\
  t m0 = Some {| interval := fl 0.01; pending := true |} /\
  exists m1, fire m0 = Some (ok tt, m1) /\
             calls m1 = [true] /\
             t m1 = Some {| interval := fl 0.2; pending := true |} /\
             fl 0.2 <> fl 0.1.
Proof.
  simpl. repeat split. eexists. repeat split. intros H; inversion H.
Qed.

(** C8 as stated fails: on a fresh object [stop] raises, and on an
    object stopped before it makes a further effect. *)
Lemma C8_stop_idle_counterexample :
  ~ stop_silent_when_idle (init scenario) /\
  ~ stop_silent_when_idle (stop (run (init scenario)).2).2.
Proof.
  split; intros H.
  - destruct (H eq_refl) as (m' & Hs & _). discriminate Hs.
  - destruct (H eq_refl) as (m' & Hs & Hc).
    injection Hs as <-. discriminate Hc.
Qed.

(** C8 (amended).  [stop] on an idle object: before any [run] the timer
    attribute does not exist, [stop] raises [AttributeError] and makes no
    effect; once [run] was called, [stop] does not raise, leaves no timer
    pending and calls [makeMicLoud] once more. *)
Theorem C8_stop_when_idle (m : self) :
  idle m ->
  (t m = None -> stop m = (raise AttributeError, m)) /\
  (forall tm, t m = Some tm ->
     exists m', stop m = (ok tt, m') /\ idle m' /\ fire m' = None /\
                calls m' = calls m ++ [true]).
Proof.
  intros _. split.
  - intros Ht. unfold stop. rewrite Ht. reflexivity.
  - intros tm Ht. unfold stop. rewrite Ht.
    eexists; split; [reflexivity|]. unfold idle, fire; simpl. auto.
Qed.

(** C8 (amended) on the scenario: [stop] before [run], and a second
    [stop] after [run]. *)
Lemma C8_stop_when_idle_witness :
  stop (init scenario) = (raise AttributeError, init scenario) /\
  exists m', stop (stop (run (init scenario)).2).2 = (ok tt, m') /\
             calls m' = [true; true].
Proof.
  split.
  - apply (C8_stop_when_idle (init scenario)); reflexivity.
  - destruct (C8_stop_when_idle (stop (run (init scenario)).2).2 eq_refl)
      as [_ H].
    destruct (H _ eq_refl) as (m' & Hs & _ & _ & Hc).
    exists m'. split; [exact Hs | exact Hc].
Defined.

End Playback.

(** * Generation: bounded Gaussian samples *)

Section Clamp.


(** [min(max(minDur, x), maxDur)] with ordered bounds. *)
Lemma clamp_ordered minDur maxDur x :
  fle minDur maxDur = true ->
  let y := py_min (py_max minDur x) maxDur in
  (fle minDur y = true /\ fle y maxDur = true) /\
  (flt x minDur = true -> y = minDur) /\
  (flt maxDur x = true -> y = maxDur) /\
  (fle minDur x = true -> fle x maxDur = true -> y = x).
Proof.
  intros Hb. unfold py_min, py_max.
  pose proof (fle_refl_l _ _ Hb) as Hmin.
  pose proof (fle_refl_r _ _ Hb) as Hmax.
  pose proof (fle_not_flt _ _ Hb) as Hnb.
  destruct (flt minDur x) eqn:Hx.
  - destruct (flt maxDur x) eqn:Hy; simpl.
    + repeat split; auto.
      * intros H. rewrite (flt_asym _ _ H) in Hx. discriminate.
      * intros _ H. rewrite (fle_not_flt _ _ H) in Hy. discriminate.
    + assert (Hxx : fle x x = true) by (apply flt_fle in Hx; eapply fle_refl_r; eauto).
      repeat split; auto using flt_fle, not_flt_fle.
      * intros H. rewrite (flt_asym _ _ H) in Hx. discriminate.
      * discriminate.
  - rewrite Hnb. simpl. repeat split; auto.
    + intros H. pose proof (fle_flt_trans _ _ _ Hb H) as H'. congruence.
    + intros H _. now apply fle_antisym_flt.
Qed.

(** [min(max(minDur, x), maxDur)] with inverted bounds. *)
Lemma clamp_inverted minDur maxDur x :
  flt maxDur minDur = true -> py_min (py_max minDur x) maxDur = maxDur.
Proof.
  intros Hb. unfold py_min, py_max.
  destruct (flt minDur x) eqn:Hx.
  - now rewrite (flt_trans _ _ _ Hb Hx).
  - now rewrite Hb.
Qed.

End Clamp.

Section Sampling.
Import StepDistribution.
Context {G : Type} `{PyRandom G}.

Lemma gauss_list_length n avg std (g : G) :
  length (gauss_list n avg std g).1 = n.
Proof.
  revert g. induction n as [|n IH]; intros g; simpl; [reflexivity|].
  destruct (gauss avg std g) as [x g1].
  specialize (IH g1). destruct (gauss_list n avg std g1) as [xs g2].
  simpl in *. now rewrite IH.
Qed.

Lemma bounded_gaussian_list_map nElem avg std minDur maxDur (g : G) :
  (bounded_gaussian_list nElem avg std minDur maxDur g).1 =
  map (fun x => py_min (py_max minDur x) maxDur)
      (gauss_list (Z.to_nat nElem) avg std g).1.
Proof.
  unfold bounded_gaussian_list.
  now destruct (gauss_list (Z.to_nat nElem) avg std g).
Qed.

Lemma bounded_gaussian_list_length nElem avg std minDur maxDur (g : G) :
  length (bounded_gaussian_list nElem avg std minDur maxDur g).1 =
  Z.to_nat nElem.
Proof.
  now rewrite bounded_gaussian_list_map, length_map, gauss_list_length.
Qed.

(** C4.  With [minDur <= maxDur], [bounded_gaussian_list] draws [nElem]
    samples and returns one duration for each of them, in order: every
    duration lies in [[minDur, maxDur]]; a sample below [minDur] becomes
    [minDur], a sample above [maxDur] becomes [maxDur], and a sample
    within the bounds is kept. *)
Theorem C4_bounded_gaussian_list_saturates
    (nElem : Z) (avgDur stdDur minDur maxDur : float) (g : G) :
  fle minDur maxDur = true ->
  let samples := (gauss_list (Z.to_nat nElem) avgDur stdDur g).1 in
  let out := (bounded_gaussian_list nElem avgDur stdDur minDur maxDur g).1 in
  length samples = Z.to_nat nElem /\
  length out = Z.to_nat nElem /\
  Forall (fun y => fle minDur y = true /\ fle y maxDur = true) out /\
  Forall2 (fun x y => (flt x minDur = true -> y = minDur) /\
                      (flt maxDur x = true -> y = maxDur) /\
                      (fle minDur x = true -> fle x maxDur = true -> y = x))
          samples out.
Proof.
  intros Hb samples out. subst samples out.
  rewrite bounded_gaussian_list_map, length_map, gauss_list_length.
  repeat split.
  - apply Forall_map, Forall_forall. intros x _.
    apply (clamp_ordered minDur maxDur x Hb).
  - apply Forall2_fmap_r, Forall_Forall2_diag, Forall_forall. intros x _.
    apply (clamp_ordered minDur maxDur x Hb).
Qed.

(** C10.  With [minDur > maxDur], every duration that
    [bounded_gaussian_list] returns is [maxDur], whatever was drawn. *)
Theorem C10_inverted_bounds_give_maxDur
    (nElem : Z) (avgDur stdDur minDur maxDur : float) (g : G) :
  flt maxDur minDur = true ->
  (bounded_gaussian_list nElem avgDur stdDur minDur maxDur g).1 =
  repeat maxDur (Z.to_nat nElem).
Proof.
  intros Hb. rewrite bounded_gaussian_list_map.
  rewrite <- (gauss_list_length (Z.to_nat nElem) avgDur stdDur g) at 2.
  induction (gauss_list (Z.to_nat nElem) avgDur stdDur g).1 as [|x xs IH];
    simpl; [reflexivity|].
  now rewrite (clamp_inverted _ _ x Hb), IH.
Qed.

End Sampling.

Section SamplingExamples.
Import StepDistribution.

(** C4 for the bounds [2, 4] and the samples 1, 3, 5. *)
Lemma C4_bounded_gaussian_list_saturates_witness :
  let out := (bounded_gaussian_list 3 (fl 3) (fl 1) (fl 2) (fl 4)
                [fl 1; fl 3; fl 5]).1 in
  length out = 3%nat /\
  Forall (fun y => fle (fl 2) y = true /\ fle y (fl 4) = true) out.
Proof.
  assert (Hb : fle (fl 2) (fl 4) = true) by (vm_compute; reflexivity).
  destruct (C4_bounded_gaussian_list_saturates
              3 (fl 3) (fl 1) (fl 2) (fl 4) [fl 1; fl 3; fl 5] Hb)
    as (_ & Hlen & Hall & _).
  split; assumption.
Defined.

(** C10 for the bounds [4, 2] and the samples 1, 3, 5. *)
Lemma C10_inverted_bounds_give_maxDur_witness :
  (bounded_gaussian_list 3 (fl 3) (fl 1) (fl 4) (fl 2)
     [fl 1; fl 3; fl 5]).1 = [fl 2; fl 2; fl 2].
Proof.
  assert (Hb : flt (fl 2) (fl 4) = true) by (vm_compute; reflexivity).
  exact (C10_inverted_bounds_give_maxDur
           3 (fl 3) (fl 1) (fl 4) (fl 2) [fl 1; fl 3; fl 5] Hb).
Defined.

End SamplingExamples.

(** * Summary statistics *)

Section Statistics.
Import StepDistribution.

Lemma count_on_fold (l : list (bool * float)) : forall n,
  fold_left (fun n (step : bool * float) => if step.1 then n + 1 else n) l n
  = n + Z.of_nat (length (on_steps l)).
Proof.
  induction l as [|[b x] l IH]; intros n; simpl; [lia|].
  rewrite IH. destruct b; simpl; lia.
Qed.

Lemma sum_on_fold (l : list (bool * float)) : forall acc,
  fold_left fadd
    (map (fun step : bool * float => if step.1 then step.2 else Fin 0%Qc) l)
    acc
  = fold_left fadd (map snd (on_steps l)) acc.
Proof.
  induction l as [|[b x] l IH]; intros acc; simpl; [reflexivity|].
  destruct b; simpl; [apply IH|]. rewrite fadd_0_r. apply IH.
Qed.

Lemma of_nat_nonzero n : (1 <= n)%nat -> of_nat n <> Fin 0%Qc.
Proof.
  intros Hn Heq. unfold of_nat, of_Z, fl in Heq.
  assert (Hq : Q2Qc (inject_Z (Z.of_nat n)) = Q2Qc 0) by congruence.
  apply Q2Qc_eq_iff in Hq. unfold Qeq in Hq; simpl in Hq. lia.
Qed.

Lemma fdiv_nonzero a b : b <> Fin 0%Qc -> exists c, fdiv a b = ok c.
Proof.
  intros Hb. destruct b as [y| | |]; simpl; eauto.
  destruct (bool_decide (y = 0%Qc)) eqn:Hy; eauto.
  apply bool_decide_eq_true_1 in Hy. congruence.
Qed.

Lemma fdiv_zero a : fdiv a (Fin 0%Qc) = raise ZeroDivisionError.
Proof. reflexivity. Qed.

Lemma flt_0_nonzero b : flt (Fin 0%Qc) b = true -> b <> Fin 0%Qc.
Proof. intros H ->. vm_compute in H. discriminate H. Qed.

(** C5.  For a list of at least one step whose durations sum to a
    positive total, [__distribution_details] returns
    (count of on steps / number of steps,
     sum of the durations of the on steps / total, total),
    the total being the sum of all durations. *)
Theorem C5_summary_statistics (l : list (bool * float)) :
  (1 <= length l)%nat ->
  flt (Fin 0%Qc) (py_sum (map snd l)) = true ->
  exists fracStepsOn fracTimeOn,
    distribution_details l
    = ok (fracStepsOn, fracTimeOn, py_sum (map snd l)) /\
    fdiv (of_nat (length (on_steps l))) (of_nat (length l))
    = ok fracStepsOn /\
    fdiv (py_sum (map snd (on_steps l))) (py_sum (map snd l))
    = ok fracTimeOn.
Proof.
  intros Hlen Htot. unfold distribution_details.
  rewrite count_on_fold, Z.add_0_l, fadd_0_r.
  unfold py_sum at 1. rewrite sum_on_fold. fold (py_sum (map snd (on_steps l))).
  destruct (fdiv_nonzero (of_Z (Z.of_nat (length (on_steps l))))
              (of_nat (length l)) (of_nat_nonzero _ Hlen)) as [a Ha].
  destruct (fdiv_nonzero (py_sum (map snd (on_steps l)))
              (py_sum (map snd l)) (flt_0_nonzero _ Htot)) as [b Hb].
  exists a, b. rewrite Ha, Hb. simpl. auto.
Qed.



(** C5 for the scenario: two steps out of three are on. *)
Lemma C5_summary_statistics_witness :
  exists fracStepsOn fracTimeOn,
    distribution_details scenario
    = ok (fracStepsOn, fracTimeOn, py_sum (map snd scenario)) /\
    fdiv (of_nat 2) (of_nat 3) = ok fracStepsOn /\
    fdiv (py_sum [fl 0.1; fl 0.1]) (py_sum (map snd scenario)) = ok fracTimeOn.
Proof.
  assert (Hlen : (1 <= length scenario)%nat) by (simpl; lia).
  assert (Htot : flt (Fin 0%Qc) (py_sum (map snd scenario)) = true)
    by (vm_compute; reflexivity).
  exact (C5_summary_statistics scenario Hlen Htot).
Defined.

End Statistics.

(** * Generation: the number of steps *)

Section Counts.
Import StepDistribution.
Context {G : Type} `{PyRandom G}.

Lemma coerce_ok (p : gmap string pyval) :
  (forall k, In k generationFields -> is_Some (p !! k)) ->
  exists p', coerce p = ok p' /\
    forall k v, In k generationFields -> p !! k = Some v ->
      p' !! k = Some (coerced k v).
Proof.
  intros Hall.
  assert (H1 := Hall "nSteps"). assert (H2 := Hall "fracOn"). assert (H3 := Hall "avgDurOn").
  assert (H4 := Hall "stdDurOn"). assert (H5 := Hall "minDurOn"). assert (H6 := Hall "maxDurOn").
  assert (H7 := Hall "avgDurOff"). assert (H8 := Hall "stdDurOff"). assert (H9 := Hall "minDurOff").
  assert (H10 := Hall "maxDurOff").
  destruct H1 as [v1 H1]; [simpl; tauto|]. destruct H2 as [v2 H2]; [simpl; tauto|].
  destruct H3 as [v3 H3]; [simpl; tauto|]. destruct H4 as [v4 H4]; [simpl; tauto|].
  destruct H5 as [v5 H5]; [simpl; tauto|]. destruct H6 as [v6 H6]; [simpl; tauto|].
  destruct H7 as [v7 H7]; [simpl; tauto|]. destruct H8 as [v8 H8]; [simpl; tauto|].
  destruct H9 as [v9 H9]; [simpl; tauto|]. destruct H10 as [v10 H10]; [simpl; tauto|].
  unfold coerce, generationFields, to_floats, nonnegative, getfloat, getitem.
  repeat (rewrite ?lookup_insert_eq; rewrite ?lookup_insert_ne by done;
          rewrite ?H1, ?H2, ?H3, ?H4, ?H5, ?H6, ?H7, ?H8, ?H9, ?H10;
          cbn [rbind ok]).
  eexists; split; [reflexivity|].
  intros k v Hk Hv. unfold coerced.
  repeat (destruct Hk as [<- | Hk];
          [ rewrite ?lookup_insert_eq; rewrite ?lookup_insert_ne by done;
            rewrite ?lookup_insert_eq; simpl;
            unfold add_float_zero; simpl; rewrite ?fadd_0_r; congruence |]).
  destruct Hk.
Qed.

Lemma truncate_comp q q' : (q == q')%Q -> truncate q = truncate q'.
Proof.
  intros Hq. unfold truncate.
  rewrite (Qfloor_comp _ _ Hq), (Qceiling_comp _ _ Hq).
  replace (Qle_bool 0 q') with (Qle_bool 0 q); [reflexivity|].
  apply eq_true_iff_eq. rewrite !Qle_bool_iff. now rewrite Hq.
Qed.

Lemma round_half_away_comp q q' : (q == q')%Q -> round_half_away q = round_half_away q'.
Proof.
  intros Hq. unfold round_half_away.
  assert (Hf : (q + (1 # 2) == q' + (1 # 2))%Q) by now rewrite Hq.
  assert (Hc : (q - (1 # 2) == q' - (1 # 2))%Q) by now rewrite Hq.
  rewrite (Qfloor_comp _ _ Hf), (Qceiling_comp _ _ Hc).
  replace (Qle_bool 0 q') with (Qle_bool 0 q); [reflexivity|].
  apply eq_true_iff_eq. rewrite !Qle_bool_iff. now rewrite Hq.
Qed.

Lemma py_int_of_Z z : py_int (of_Z z) = ok z.
Proof.
  unfold of_Z, fl, py_int. simpl. f_equal.
  rewrite (truncate_comp _ (inject_Z z)) by apply Qred_correct.
  unfold truncate. rewrite Qfloor_Z, Qceiling_Z. now destruct (Qle_bool 0 (inject_Z z)).
Qed.

Lemma fsub_of_Z a b : fsub (of_Z a) (of_Z b) = of_Z (a - b).
Proof.
  unfold fsub, of_Z, fl. simpl. f_equal. apply Qc_is_canon. simpl.
  rewrite !Qred_correct. unfold Qeq. simpl. lia.
Qed.


Lemma round_half_away_range (q : Q) (n : Z) :
  (0 <= q)%Q -> (q <= inject_Z n)%Q ->
  0 <= round_half_away q <= n.
Proof.
  intros H0 Hn. unfold round_half_away.
  apply Qle_bool_iff in H0 as Hb. rewrite Hb.
  pose proof (Qfloor_le (q + (1 # 2))) as Hle.
  pose proof (Qlt_floor (q + (1 # 2))) as Hlt.
  split.
  - apply Z.lt_succ_r. rewrite Zlt_Qlt. rewrite <- Z.add_1_r. 
    eapply Qle_lt_trans; [|exact Hlt]. change (inject_Z 0) with 0%Q. clear Hle Hlt Hn. lra.
  - apply Z.lt_succ_r. rewrite Zlt_Qlt.
    eapply Qle_lt_trans; [exact Hle|].
    rewrite <- Z.add_1_r, inject_Z_plus. change (inject_Z 1) with 1%Q.
    clear Hle Hlt. generalize dependent (inject_Z n). intros N HN. lra.
Qed.

Lemma round_product_range (f : Qc) (n : Z) :
  (0 <= f)%Qc -> (f <= 1)%Qc -> 0 < n ->
  0 <= round_half_away (this (f * Q2Qc (inject_Z n))%Qc) <= n.
Proof.
  intros H0 H1 Hn.
  assert (Hq : (this (f * Q2Qc (inject_Z n))%Qc == this f * inject_Z n)%Q).
  { simpl. now rewrite !Qred_correct. }
  rewrite (round_half_away_comp _ _ Hq).
  unfold Qcle in H0, H1. simpl in H0, H1.
  assert (HN : (0 < inject_Z n)%Q) by (unfold Qlt; simpl; lia).
  apply round_half_away_range.
  - apply Qmult_le_0_compat; [exact H0 | now apply Qlt_le_weak].
  - rewrite <- (Qmult_1_l (inject_Z n)) at 2.
    apply Qmult_le_compat_r; [exact H1 | now apply Qlt_le_weak].
Qed.




Lemma draw_steps_spec (p : gmap string pyval) (g : G)
    fracOn nSteps avgOn stdOn minOn maxOn avgOff stdOff minOff maxOff iOn iOff :
  getfloat p "fracOn" = ok fracOn -> getfloat p "nSteps" = ok nSteps ->
  getfloat p "avgDurOn" = ok avgOn -> getfloat p "stdDurOn" = ok stdOn ->
  getfloat p "minDurOn" = ok minOn -> getfloat p "maxDurOn" = ok maxOn ->
  getfloat p "avgDurOff" = ok avgOff -> getfloat p "stdDurOff" = ok stdOff ->
  getfloat p "minDurOff" = ok minOff -> getfloat p "maxDurOff" = ok maxOff ->
  py_int (py_round (fmul fracOn nSteps)) = ok iOn ->
  py_int (fsub nSteps (py_round (fmul fracOn nSteps))) = ok iOff ->
  exists g1 steps g',
    draw_steps p g = (ok steps, g') /\
    Permutation
      (map (pair true) (bounded_gaussian_list iOn avgOn stdOn minOn maxOn g).1
       ++ map (pair false)
              (bounded_gaussian_list iOff avgOff stdOff minOff maxOff g1).1)
      steps.
Proof.
  intros H1 H2 H3 H4 H5 H6 H7 H8 H9 H10 Hon Hoff.
  unfold draw_steps.
  rewrite H1, H2; cbn [rbind ok]. rewrite Hon; cbn [rbind ok].
  rewrite H3, H4, H5, H6; cbn [rbind ok].
  destruct (bounded_gaussian_list iOn avgOn stdOn minOn maxOn g)
    as [onList g1].
  rewrite Hoff; cbn [rbind ok]. rewrite H7, H8, H9, H10; cbn [rbind ok].
  exists g1.
  destruct (bounded_gaussian_list iOff avgOff stdOff minOff maxOff g1)
    as [offList g2].
  pose proof (shuffle_Permutation _
                (map (fun val : float => (true, val)) onList ++
                 map (fun val : float => (false, val)) offList) g2) as Hp.
  destruct (shuffle _ g2) as [steps g3].
  exists steps, g3. simpl in *. auto.
Qed.

Lemma set_seq_stepList (d : self) (g : G) steps g' :
  draw_steps (params d) g = (ok steps, g') ->
  stepList (set_seq d g).1.2 = steps.
Proof.
  intros Hd. unfold set_seq. rewrite Hd. simpl.
  destruct (distribution_details steps) as [e|[[a b] c]]; reflexivity.
Qed.



Lemma init_params_coerced (p p' : gmap string pyval) (g : G) :
  coerce p = ok p' -> init_params p g = set_seq (set_params p' blank) g.
Proof. intros Hc. unfold init_params. now rewrite Hc. Qed.

(** What [__init__] draws from a dictionary with the ten generation
    fields, [nSteps] a positive integer and [fracOn] in [[0, 1]]: [r] on
    samples and [nSteps - r] off samples, [r = round(fracOn * nSteps)],
    each saturated into the coerced bounds of its category, then
    shuffled. *)
Lemma generated_steps (p : gmap string pyval) (g : G)
    (vn vf : pyval) (n : Z) (f : Qc) :
  (forall k, In k generationFields -> is_Some (p !! k)) ->
  p !! "nSteps" = Some vn -> as_float vn = of_Z n -> 0 < n ->
  p !! "fracOn" = Some vf -> as_float vf = Fin f ->
  (0 <= f)%Qc -> (f <= 1)%Qc ->
  exists (p' : gmap string pyval) (r : Z) (onList offList : list float)
         (steps : list (bool * float)) (g' : G),
    coerce p = ok p' /\
    draw_steps p' g = (ok steps, g') /\
    py_round (fmul (as_float vf) (as_float vn)) = of_Z r /\
    0 <= r <= n /\
    length onList = Z.to_nat r /\ length offList = Z.to_nat (n - r) /\
    Permutation (map (pair true) onList ++ map (pair false) offList) steps /\
    (forall vmin vmax,
        p !! "minDurOn" = Some vmin -> p !! "maxDurOn" = Some vmax ->
        exists xs, onList
                   = map (fun x => py_min
                                     (py_max (as_float (coerced "minDurOn" vmin)) x)
                                     (as_float (coerced "maxDurOn" vmax))) xs) /\
    (forall vmin vmax,
        p !! "minDurOff" = Some vmin -> p !! "maxDurOff" = Some vmax ->
        exists xs, offList
                   = map (fun x => py_min
                                     (py_max (as_float (coerced "minDurOff" vmin)) x)
                                     (as_float (coerced "maxDurOff" vmax))) xs).
Proof.
  intros Hall Hn Hvn Hpos Hf Hvf Hf0 Hf1.
  destruct (coerce_ok p Hall) as (p' & Hc & Hp').
  assert (Hget : forall k, In k generationFields -> exists v,
            p !! k = Some v /\ getfloat p' k = ok (as_float (coerced k v))).
  { intros k Hk. destruct (Hall k Hk) as [v Hv]. exists v. split; [exact Hv|].
    unfold getfloat, getitem. now rewrite (Hp' k v Hk Hv). }
  pose proof (round_product_range f n Hf0 Hf1 Hpos) as Hr.
  set (r := round_half_away (this (f * Q2Qc (inject_Z n))%Qc)) in *.
  assert (Hround : py_round (fmul (as_float vf) (as_float vn)) = of_Z r).
  { rewrite Hvf, Hvn. reflexivity. }
  destruct (Hget "fracOn") as (v1 & Hv1 & G1); [simpl; tauto|].
  destruct (Hget "nSteps") as (v2 & Hv2 & G2); [simpl; tauto|].
  destruct (Hget "avgDurOn") as (v3 & _ & G3); [simpl; tauto|].
  destruct (Hget "stdDurOn") as (v4 & _ & G4); [simpl; tauto|].
  destruct (Hget "minDurOn") as (v5 & Hv5 & G5); [simpl; tauto|].
  destruct (Hget "maxDurOn") as (v6 & Hv6 & G6); [simpl; tauto|].
  destruct (Hget "avgDurOff") as (v7 & _ & G7); [simpl; tauto|].
  destruct (Hget "stdDurOff") as (v8 & _ & G8); [simpl; tauto|].
  destruct (Hget "minDurOff") as (v9 & Hv9 & G9); [simpl; tauto|].
  destruct (Hget "maxDurOff") as (v10 & Hv10 & G10); [simpl; tauto|].
  assert (v1 = vf) by congruence. assert (v2 = vn) by congruence. subst v1 v2.
  change (as_float (coerced "fracOn" vf)) with (as_float vf) in G1.
  change (as_float (coerced "nSteps" vn)) with (as_float vn) in G2.
  destruct (draw_steps_spec p' g _ _ _ _ _ _ _ _ _ _ r (n - r)
              G1 G2 G3 G4 G5 G6 G7 G8 G9 G10)
    as (g1 & steps & g' & Hd & Hperm).
  { rewrite Hround. apply py_int_of_Z. }
  { rewrite Hround, Hvn, fsub_of_Z. apply py_int_of_Z. }
  eexists p', r, _, _, steps, g'.
  split; [exact Hc|]. split; [exact Hd|]. split; [exact Hround|].
  split; [exact Hr|].
  split; [apply bounded_gaussian_list_length|].
  split; [apply bounded_gaussian_list_length|].
  split; [exact Hperm|]. split.
  - intros vmin vmax Hmin Hmax.
    assert (vmin = v5) by congruence. assert (vmax = v6) by congruence. subst.
    eexists. apply bounded_gaussian_list_map.
  - intros vmin vmax Hmin Hmax.
    assert (vmin = v9) by congruence. assert (vmax = v10) by congruence. subst.
    eexists. apply bounded_gaussian_list_map.
Qed.





(** Every duration of the generated list lies within the coerced bounds of
    its category, when these are ordered. *)
Lemma generated_durations_within_bounds (p : gmap string pyval) (g : G)
    (vn vf : pyval) (n : Z) (f : Qc) (vminOn vmaxOn vminOff vmaxOff : pyval) :
  (forall k, In k generationFields -> is_Some (p !! k)) ->
  p !! "nSteps" = Some vn -> as_float vn = of_Z n -> 0 < n ->
  p !! "fracOn" = Some vf -> as_float vf = Fin f ->
  (0 <= f)%Qc -> (f <= 1)%Qc ->
  p !! "minDurOn" = Some vminOn -> p !! "maxDurOn" = Some vmaxOn ->
  p !! "minDurOff" = Some vminOff -> p !! "maxDurOff" = Some vmaxOff ->
  let minOn := as_float (coerced "minDurOn" vminOn) in
  let maxOn := as_float (coerced "maxDurOn" vmaxOn) in
  let minOff := as_float (coerced "minDurOff" vminOff) in
  let maxOff := as_float (coerced "maxDurOff" vmaxOff) in
  fle minOn maxOn = true -> fle minOff maxOff = true ->
  Forall (fun step : bool * float =>
            if step.1
            then fle minOn step.2 = true /\ fle step.2 maxOn = true
            else fle minOff step.2 = true /\ fle step.2 maxOff = true)
         (stepList (init_params p g).1.2).
Proof.
  intros Hall Hn Hvn Hpos Hf Hvf Hf0 Hf1 H1 H2 H3 H4 minOn maxOn minOff maxOff
         Hon Hoff.
  destruct (generated_steps p g vn vf n f Hall Hn Hvn Hpos Hf Hvf Hf0 Hf1)
    as (p' & r & onList & offList & steps & g' & Hc & Hd & _ & _
        & _ & _ & Hperm & Hxs & Hys).
  rewrite (init_params_coerced p p' g Hc).
  rewrite (set_seq_stepList (set_params p' blank) g steps g' Hd).
  destruct (Hxs _ _ H1 H2) as [xs ->]. destruct (Hys _ _ H3 H4) as [ys ->].
  eapply Permutation_Forall; [exact Hperm|].
  apply Forall_app. split; apply Forall_map, Forall_map, Forall_forall;
    intros x _; simpl.
  - apply (clamp_ordered minOn maxOn x Hon).
  - apply (clamp_ordered minOff maxOff x Hoff).
Qed.

End Counts.

Section CountsExamples.
Import StepDistribution.




End CountsExamples.

(** * Texts *)

Section Strings.







Lemma contains_not_char c s :
  contains c s = negb (all_chars (not_char c) s).
Proof.
  induction s as [|x s IH]; simpl; [reflexivity|].
  rewrite IH. unfold not_char. now destruct (Ascii.eqb x c), (all_chars _ s).
Qed.


Lemma readlines_cons c s :
  Ascii.eqb c LF = false -> s <> EmptyString ->
  readlines (String c s) =
  match readlines s with
  | l :: ls => String c l :: ls
  | [] => [String c EmptyString]
  end.
Proof. intros Hc _. simpl. now rewrite Hc. Qed.



Lemma rstrip_not_space s : all_chars not_space s = true -> rstrip s = s.
Proof.
  induction s as [|c s IH]; [reflexivity|]. simpl.
  intros [Hc Hs]%andb_true_iff. rewrite (IH Hs).
  unfold not_space in Hc. apply negb_true_iff in Hc. rewrite Hc.
  now destruct s.
Qed.

Lemma lstrip_not_space s : all_chars not_space s = true -> lstrip s = s.
Proof.
  destruct s as [|c s]; [reflexivity|]. simpl.
  intros [Hc _]%andb_true_iff.
  unfold not_space in Hc. apply negb_true_iff in Hc. now rewrite Hc.
Qed.

Lemma strip_not_space s : all_chars not_space s = true -> strip s = s.
Proof. intros Hs. unfold strip. now rewrite rstrip_not_space, lstrip_not_space. Qed.






End Strings.

(** * The text of a number *)

Section Clean.












End Clean.

(** * Saving and loading *)

Section RoundTrip.
Import StepDistribution.
Context `{PyExec}.




















End RoundTrip.

Section RoundTripExamples.
Import StepDistribution.




End RoundTripExamples.

(** * Files that are not loaded, and files that are *)

Section Failures.
Import StepDistribution.
Context `{PyExec}.







Lemma load_line_body st line st' :
  stillInHeader st = false -> load_line st line = ok st' ->
  stillInHeader st' = false /\ loop_params st' = loop_params st /\
  exists tup, parse_step line = ok tup /\
              loop_stepList st' = loop_stepList st ++ [tup].
Proof.
  intros Hst. unfold load_line. rewrite Hst.
  destruct (parse_step line) as [e|tup]; [discriminate|].
  cbn [rbind ok]. intros [= <-]. simpl. eauto.
Qed.










Section Policy.
Context {G : Type} `{PyRandom G}.


End Policy.

End Failures.

Section FailuresExamples.
Import StepDistribution.


(** The on/off part of a step line never fails: anything but [True]
    reads as off, and parts after the second are ignored. *)
Lemma parse_step_lenient :
  parse_step ("banana,1.0" +:+ CRLF) = ok (false, fl 1) /\
  parse_step ("true,1.0,junk" +:+ CRLF) = ok (false, fl 1) /\
  parse_step ("True,1.0" +:+ CRLF) = ok (true, fl 1).
Proof.
  repeat split; apply (bool_decide_eq_true_1 _); vm_compute; reflexivity.
Qed.




End FailuresExamples.
